(** * art2d2 drawing node: waypoint follower

    Shallow embedding of [src/art2d2/art2d2/drawing_node.py] (class
    [DrawingNode]) and the properties of its control loop.

    Numbers are IEEE-754 binary64 values, as numpy's [float64] and Python's
    [float] are: the kernel's primitive floats, with the operations the
    source applies ([-], [*], [/], [+], [sqrt], [abs], [<]).  [np.arctan2]
    (libm) and the two functions of [art2d2.helper] are not part of the
    file under study; the model takes them as parameters.

    The node ([self]) is a record; a method is a computation in a small
    state-and-exception monad.  The two publishers are modelled by the
    lists of the messages they were given, oldest first; [print] calls
    are left out. *)

From Stdlib Require Import Floats List String Bool Arith Lia ZArith.
Import ListNotations.

Set Warnings "-inexact-float".
Local Open Scope float_scope.

(** ** Messages (geometry_msgs) *)

Record Vector3 := mkVector3 { v_x : float; v_y : float; v_z : float }.

Record Twist := mkTwist { linear : Vector3; angular : Vector3 }.

Record Quaternion := mkQuaternion
  { q_x : float; q_y : float; q_z : float; q_w : float }.

Record Pose := mkPose { position : Vector3; orientation : Quaternion }.

Record PoseStamped := mkPoseStamped { frame_id : string; pose : Pose }.

(** [Twist()]: every component is 0.0. *)
Definition Vector3_0 : Vector3 := mkVector3 0 0 0.
Definition Twist_0 : Twist := mkTwist Vector3_0 Vector3_0.

Definition set_linear_x (t : Twist) (v : float) : Twist :=
  mkTwist (mkVector3 v (v_y (linear t)) (v_z (linear t))) (angular t).
Definition set_angular_z (t : Twist) (w : float) : Twist :=
  mkTwist (linear t) (mkVector3 (v_x (angular t)) (v_y (angular t)) w).

(** ** numpy on vectors of two components *)

Definition vec2 : Type := float * float.

Definition vsub (a b : vec2) : vec2 := (fst a - fst b, snd a - snd b).
Definition vdot (a b : vec2) : float := fst a * fst b + snd a * snd b.
(** [np.linalg.norm] of a real vector: the square root of [x.dot(x)]. *)
Definition norm (a : vec2) : float := sqrt (vdot a a).
(** Division of an array by a scalar; numpy does not raise on a zero
    divisor, the quotient is an infinity or NaN. *)
Definition vdiv (a : vec2) (d : float) : vec2 := (fst a / d, snd a / d).

(** [np.clip] on a [float64]: [min(max(x, lo), hi)], where a NaN operand
    [x] is returned as it is. *)
Definition fmax_np (a b : float) : float :=
  if is_nan a then a else if b <? a then a else b.
Definition fmin_np (a b : float) : float :=
  if is_nan a then a else if a <? b then a else b.
Definition clip (x lo hi : float) : float := fmin_np (fmax_np x lo) hi.

(** [x <? y], [x =? y] and [x <=? y] read off one [SFcompare]. *)
Definition cmp (x y : float) : option comparison :=
  SFcompare (Prim2SF x) (Prim2SF y).

(** The four ways [np.clip p (-0.3) 0.3] comes out. *)
Variant clip_case (p : float) : float -> Prop :=
| clip_nan : is_nan p = true -> clip_case p p
| clip_low : cmp p (- (0.3)) = Some Lt \/ cmp p (- (0.3)) = Some Eq ->
             clip_case p (- (0.3))
| clip_high : cmp 0.3 p = Some Lt \/ cmp 0.3 p = Some Eq ->
              clip_case p 0.3
| clip_inside : cmp (- (0.3)) p = Some Lt -> cmp p 0.3 = Some Lt ->
                clip_case p p.

(** ** The node *)

(** The class attributes of [DrawingNode] that the methods read or write,
    the two outbound topics, and whether [destroy_node] has run.  The
    attributes [angle_error], [timer], [current_pose] and the publisher
    and subscription handles are never read by the methods below. *)
Record DrawingNode := mkNode
  { current_angle : float;
    target_angle : float;
    current_point : vec2;
    target_point : vec2;
    target_direction : vec2;
    waypt_index : nat;
    state : string;
    cmd_vel : list Twist;
    pose_target : list PoseStamped;
    destroyed : bool }.

Definition waypoints : list vec2 :=
  [ (0, 0.3); (0.3, 0.3); (0.3, 0); (0, 0) ].

Definition timer_period : float := 0.05.

(** The attribute values every instance starts from. *)
Definition class_attributes : DrawingNode :=
  {| current_angle := 0;
     target_angle := 0;
     current_point := (0, 0);
     target_point := (0, 0);
     target_direction := (1, 0);
     waypt_index := 0;
     state := "turning";
     cmd_vel := [];
     pose_target := [];
     destroyed := false |}.

Definition with_current_angle (a : float) (s : DrawingNode) : DrawingNode :=
  mkNode a (target_angle s) (current_point s) (target_point s)
    (target_direction s) (waypt_index s) (state s) (cmd_vel s)
    (pose_target s) (destroyed s).
Definition with_target_angle (a : float) (s : DrawingNode) : DrawingNode :=
  mkNode (current_angle s) a (current_point s) (target_point s)
    (target_direction s) (waypt_index s) (state s) (cmd_vel s)
    (pose_target s) (destroyed s).
Definition with_current_point (p : vec2) (s : DrawingNode) : DrawingNode :=
  mkNode (current_angle s) (target_angle s) p (target_point s)
    (target_direction s) (waypt_index s) (state s) (cmd_vel s)
    (pose_target s) (destroyed s).
Definition with_target_point (p : vec2) (s : DrawingNode) : DrawingNode :=
  mkNode (current_angle s) (target_angle s) (current_point s) p
    (target_direction s) (waypt_index s) (state s) (cmd_vel s)
    (pose_target s) (destroyed s).
Definition with_target_direction (d : vec2) (s : DrawingNode) : DrawingNode :=
  mkNode (current_angle s) (target_angle s) (current_point s) (target_point s)
    d (waypt_index s) (state s) (cmd_vel s) (pose_target s) (destroyed s).
Definition with_waypt_index (i : nat) (s : DrawingNode) : DrawingNode :=
  mkNode (current_angle s) (target_angle s) (current_point s) (target_point s)
    (target_direction s) i (state s) (cmd_vel s) (pose_target s) (destroyed s).
Definition with_state (m : string) (s : DrawingNode) : DrawingNode :=
  mkNode (current_angle s) (target_angle s) (current_point s) (target_point s)
    (target_direction s) (waypt_index s) m (cmd_vel s) (pose_target s)
    (destroyed s).
Definition with_cmd_vel (l : list Twist) (s : DrawingNode) : DrawingNode :=
  mkNode (current_angle s) (target_angle s) (current_point s) (target_point s)
    (target_direction s) (waypt_index s) (state s) l (pose_target s)
    (destroyed s).
Definition with_pose_target (l : list PoseStamped) (s : DrawingNode)
  : DrawingNode :=
  mkNode (current_angle s) (target_angle s) (current_point s) (target_point s)
    (target_direction s) (waypt_index s) (state s) (cmd_vel s) l (destroyed s).
Definition with_destroyed (b : bool) (s : DrawingNode) : DrawingNode :=
  mkNode (current_angle s) (target_angle s) (current_point s) (target_point s)
    (target_direction s) (waypt_index s) (state s) (cmd_vel s)
    (pose_target s) b.

(** ** Methods as computations on the node *)

Inductive exn := IndexError.

Inductive result (A : Type) :=
| Ok (a : A) (s : DrawingNode)
| Raise (e : exn).
Arguments Ok {A} a s.
Arguments Raise {A} e.

Definition M (A : Type) : Type := DrawingNode -> result A.

Definition ret {A} (a : A) : M A := fun s => Ok a s.
Definition bind {A B} (c : M A) (k : A -> M B) : M B :=
  fun s => match c s with
           | Ok a s' => k a s'
           | Raise e => Raise e
           end.
Definition get : M DrawingNode := fun s => Ok s s.
Definition modify (f : DrawingNode -> DrawingNode) : M unit :=
  fun s => Ok tt (f s).
Definition raise {A} (e : exn) : M A := fun _ => Raise e.

Declare Scope node_scope.
Delimit Scope node_scope with node.
Notation "x <- c ;; k" := (bind c (fun x => k))
  (at level 61, c at next level, right associativity) : node_scope.
Notation "c ;; k" := (bind c (fun _ => k))
  (at level 61, right associativity) : node_scope.
Local Open Scope node_scope.

(** [self.vel_publisher.publish(t)] and
    [self.pose_target_publisher.publish(m)]. *)
Definition publish_vel (t : Twist) : M unit :=
  modify (fun s => with_cmd_vel (cmd_vel s ++ [t]) s).
Definition publish_pose_target (m : PoseStamped) : M unit :=
  modify (fun s => with_pose_target (pose_target s ++ [m]) s).

(** [self.destroy_node()] (rclpy): releases the node's timer, subscription
    and publishers; none of its callbacks runs afterwards. *)
Definition destroy_node : M unit := modify (with_destroyed true).

(** [self.waypoints[i, :]]; a row index past the end raises. *)
Definition waypoint_row (i : nat) : M vec2 :=
  match nth_error waypoints i with
  | Some p => ret p
  | None => raise IndexError
  end.

(** The functions the node imports:
    - [np.arctan2 y x];
    - [art2d2.helper.quaternion_from_euler roll pitch yaw], the sequence
      [q[0], q[1], q[2], q[3]] read as a quaternion [x, y, z, w];
    - [art2d2.helper.euler_from_quaternion x y z w]: roll, pitch, yaw. *)
Class Externals := mkExternals
  { arctan2 : float -> float -> float;
    quaternion_from_euler : float -> float -> float -> Quaternion;
    euler_from_quaternion :
      float -> float -> float -> float -> float * float * float }.

Section Node.

Context {ext : Externals}.

(** [__init__]: the subscription, the timer and the two publishers are
    created (no message leaves the node), then the first waypoint is
    initialised. *)
Definition init : M unit :=
  s <- get ;;
  p <- waypoint_row (waypt_index s) ;;
  modify (with_target_point p) ;;
  let delta := vsub p (current_point s) in
  modify (with_target_angle (arctan2 (snd delta) (fst delta))) ;;
  modify (with_target_direction (vdiv delta (norm delta))).

Definition pose_callback (pose_msg : PoseStamped) : M unit :=
  let current_pose := pose pose_msg in
  let '(_, _, current_yaw) :=
    euler_from_quaternion
      (q_x (orientation current_pose)) (q_y (orientation current_pose))
      (q_z (orientation current_pose)) (q_w (orientation current_pose)) in
  modify (with_current_angle current_yaw) ;;
  modify (with_current_point
            (v_x (position current_pose), v_y (position current_pose))).

Definition rotate_to_angle : M float :=
  s <- get ;;
  let angle_error := target_angle s - current_angle s in
  let k_p := 0.3 in
  let omega_out := k_p * angle_error in
  let max_omega := 0.3 in
  let omega_out := clip omega_out (- max_omega) max_omega in
  let vel_out := set_angular_z Twist_0 omega_out in
  publish_vel vel_out ;;
  ret angle_error.

Definition drive_to_point : M float :=
  s <- get ;;
  let position_error := vsub (target_point s) (current_point s) in
  let projected_position_error := vdot position_error (target_direction s) in
  let k_p := 0.2 in
  let vel_out := set_linear_x Twist_0 (k_p * projected_position_error) in
  publish_vel vel_out ;;
  ret projected_position_error.

Definition recalculate_targets : M unit :=
  s <- get ;;
  p <- waypoint_row (waypt_index s) ;;
  modify (with_target_point p) ;;
  let delta := vsub p (current_point s) in
  modify (with_target_angle (arctan2 (snd delta) (fst delta))) ;;
  modify (with_target_direction (vdiv delta (norm delta))) ;;
  s <- get ;;
  let q_target := quaternion_from_euler 0 0 (target_angle s) in
  let pose_target_msg :=
    mkPoseStamped "map"
      (mkPose (mkVector3 (fst (target_point s)) (snd (target_point s)) 0)
              (mkQuaternion (q_x q_target) (q_y q_target)
                            (q_z q_target) (q_w q_target))) in
  publish_pose_target pose_target_msg.

Definition move : M unit :=
  s <- get ;;
  if String.eqb (state s) "turning" then
    angle_error <- rotate_to_angle ;;
    if abs angle_error <? 0.03 then modify (with_state "driving")
    else ret tt
  else if String.eqb (state s) "driving" then
    projected_position_error <- drive_to_point ;;
    if abs projected_position_error <? 0.03 then
      s <- get ;;
      if (waypt_index s <? List.length waypoints - 1)%nat then
        modify (with_waypt_index (waypt_index s + 1)) ;;
        recalculate_targets ;;
        modify (with_state "turning")
      else
        let zero_vel := Twist_0 in
        publish_vel zero_vel ;;
        destroy_node
    else ret tt
  else ret tt.

(** *** The executor ([rclpy.spin])

    The node has two callbacks: [move] on the timer and [pose_callback]
    on [/pose_estimate].  The executor runs them one at a time, in the
    order the events become ready; once [destroy_node] has run the
    timer and the subscription are gone and no callback runs. *)
Inductive event :=
| Tick
| PoseEstimate (pose_msg : PoseStamped).

Definition dispatch (e : event) : M unit :=
  s <- get ;;
  if destroyed s then ret tt
  else match e with
       | Tick => move
       | PoseEstimate pose_msg => pose_callback pose_msg
       end.

Fixpoint spin (es : list event) : M unit :=
  match es with
  | [] => ret tt
  | e :: es' => dispatch e ;; spin es'
  end.

(** [main]: construct the node, then spin it. *)
Definition main (es : list event) : result unit :=
  (init ;; spin es) class_attributes.

(** *** Names for what the methods compute

    Used to state what a call returns and leaves in the node. *)

(** The two errors and the two commands, as functions of the node. *)
Definition angle_error_of (s : DrawingNode) : float :=
  target_angle s - current_angle s.
Definition projected_error_of (s : DrawingNode) : float :=
  vdot (vsub (target_point s) (current_point s)) (target_direction s).
Definition turn_cmd (s : DrawingNode) : Twist :=
  set_angular_z Twist_0 (clip (0.3 * angle_error_of s) (- (0.3)) 0.3).
Definition drive_cmd (s : DrawingNode) : Twist :=
  set_linear_x Twist_0 (0.2 * projected_error_of s).
Definition published (t : Twist) (s : DrawingNode) : DrawingNode :=
  with_cmd_vel (cmd_vel s ++ [t]) s.

(** The node after its target fields are set for the row [p]. *)
Definition resolved (p : vec2) (s : DrawingNode) : DrawingNode :=
  let delta := vsub p (current_point s) in
  with_target_direction (vdiv delta (norm delta))
    (with_target_angle (arctan2 (snd delta) (fst delta))
       (with_target_point p s)).
(** The message [recalculate_targets] builds from the target fields. *)
Definition announcement (s : DrawingNode) : PoseStamped :=
  let q_target := quaternion_from_euler 0 0 (target_angle s) in
  mkPoseStamped "map"
    (mkPose (mkVector3 (fst (target_point s)) (snd (target_point s)) 0)
            (mkQuaternion (q_x q_target) (q_y q_target)
                          (q_z q_target) (q_w q_target))).
Definition announced (s : DrawingNode) : DrawingNode :=
  with_pose_target (pose_target s ++ [announcement s]) s.

(** The node [__init__] leaves behind. *)
Definition constructed : DrawingNode := resolved (0, 0.3) class_attributes.

(** Every way a call of [move] can go. *)
Variant move_spec (s : DrawingNode) : result unit -> Prop :=
| move_turn_on :
    state s = "turning"%string ->
    (abs (angle_error_of s) <? 0.03) = false ->
    move_spec s (Ok tt (published (turn_cmd s) s))
| move_turn_done :
    state s = "turning"%string ->
    (abs (angle_error_of s) <? 0.03) = true ->
    move_spec s (Ok tt (with_state "driving" (published (turn_cmd s) s)))
| move_drive_on :
    state s = "driving"%string ->
    (abs (projected_error_of s) <? 0.03) = false ->
    move_spec s (Ok tt (published (drive_cmd s) s))
| move_drive_next (p : vec2) :
    state s = "driving"%string ->
    (abs (projected_error_of s) <? 0.03) = true ->
    (waypt_index s + 1 < List.length waypoints)%nat ->
    nth_error waypoints (waypt_index s + 1) = Some p ->
    move_spec s
      (Ok tt (with_state "turning"
                (announced
                   (resolved p
                      (with_waypt_index (waypt_index s + 1)
                         (published (drive_cmd s) s))))))
| move_drive_last :
    state s = "driving"%string ->
    (abs (projected_error_of s) <? 0.03) = true ->
    (waypt_index s <? List.length waypoints - 1)%nat = false ->
    move_spec s
      (Ok tt (with_destroyed true
                (published Twist_0 (published (drive_cmd s) s))))
| move_other :
    state s <> "turning"%string ->
    state s <> "driving"%string ->
    move_spec s (Ok tt s).

End Node.

(** ** Reference instances of the external functions

    Used to run the model on concrete inputs.  They follow the usual
    closed forms in binary64; no theorem assumes that libm or
    [art2d2.helper] return the same bits. *)

Definition pi : float := 0x1.921fb54442d18p+1.
Definition pi_2 : float := 0x1.921fb54442d18p+0.

(** Taylor polynomial of the arc tangent, for [|z| <= tan (pi/16)]. *)
Definition atan_poly (z : float) : float :=
  let w := z * z in
  z * (1 - w * (1/3 - w * (1/5 - w * (1/7 - w * (1/9 - w * (1/11 -
       w * (1/13 - w * (1/15 - w * (1/17 - w / 19))))))))).
(** [tan (a/2)] from [tan a]. *)
Definition half_tan (z : float) : float := z / (1 + sqrt (1 + z * z)).
Definition atan_ref (z : float) : float :=
  if abs z <=? 1 then 4 * atan_poly (half_tan (half_tan z))
  else if 0 <? z then pi_2 - 4 * atan_poly (half_tan (half_tan (1 / z)))
  else - pi_2 - 4 * atan_poly (half_tan (half_tan (1 / z))).
Definition arctan2_ref (y x : float) : float :=
  if 0 <? x then atan_ref (y / x)
  else if x <? 0 then
    if y <? 0 then atan_ref (y / x) - pi else atan_ref (y / x) + pi
  else if 0 <? y then pi_2
  else if y <? 0 then - pi_2
  else 0.

(** Taylor polynomials of sine and cosine, for [|a| <= pi/2]. *)
Definition sin_poly (a : float) : float :=
  let w := a * a in
  a * (1 - w/6 * (1 - w/20 * (1 - w/42 * (1 - w/72 * (1 - w/110 *
      (1 - w/156 * (1 - w/210 * (1 - w/272 * (1 - w/342))))))))).
Definition cos_poly (a : float) : float :=
  let w := a * a in
  1 - w/2 * (1 - w/12 * (1 - w/30 * (1 - w/56 * (1 - w/90 *
      (1 - w/132 * (1 - w/182 * (1 - w/240 * (1 - w/306)))))))).

Definition quaternion_from_euler_ref (roll pitch yaw : float) : Quaternion :=
  let sr := sin_poly (roll / 2) in let cr := cos_poly (roll / 2) in
  let sp := sin_poly (pitch / 2) in let cp := cos_poly (pitch / 2) in
  let sy := sin_poly (yaw / 2) in let cy := cos_poly (yaw / 2) in
  mkQuaternion (sr * cp * cy - cr * sp * sy) (cr * sp * cy + sr * cp * sy)
               (cr * cp * sy - sr * sp * cy) (cr * cp * cy + sr * sp * sy).

Definition euler_from_quaternion_ref (x y z w : float)
  : float * float * float :=
  let roll := arctan2_ref (2 * (w * x + y * z)) (1 - 2 * (x * x + y * y)) in
  let t2 := clip (2 * (w * y - z * x)) (-1) 1 in
  let pitch := arctan2_ref t2 (sqrt (1 - t2 * t2)) in
  let yaw := arctan2_ref (2 * (w * z + x * y)) (1 - 2 * (y * y + z * z)) in
  (roll, pitch, yaw).

(** A pose estimate at [(x, y)] with yaw [a]. *)
Definition pose_at (x y a : float) : PoseStamped :=
  mkPoseStamped "map"
    (mkPose (mkVector3 x y 0) (quaternion_from_euler_ref 0 0 a)).

Definition reference : Externals :=
  mkExternals arctan2_ref quaternion_from_euler_ref euler_from_quaternion_ref.

(** The node after the events [es], from construction. *)
Definition run (es : list event) : DrawingNode :=
  match @main reference es with
  | Ok _ s => s
  | Raise _ => class_attributes
  end.

(** A pose feed that takes the robot round the square, each estimate
    followed by one timer tick; the last estimate is 1 cm short of the
    final waypoint, and the last tick is left to the caller. *)
Definition mission : list event :=
  [ PoseEstimate (pose_at 0 0 pi_2); Tick;
    PoseEstimate (pose_at 0 0.3 pi_2); Tick;
    PoseEstimate (pose_at 0 0.3 0); Tick;
    PoseEstimate (pose_at 0.3 0.3 0); Tick;
    PoseEstimate (pose_at 0.3 0.3 (- pi_2)); Tick;
    PoseEstimate (pose_at 0.3 0 (- pi_2)); Tick;
    PoseEstimate (pose_at 0.3 0 3.14); Tick;
    PoseEstimate (pose_at 0.01 0 3.14) ].

(** ** Vocabulary for properties of whole runs *)

(** The number of timer events in a list of events. *)
Definition is_tick (e : event) : bool :=
  match e with Tick => true | PoseEstimate _ => false end.
Definition ticks (es : list event) : nat := List.length (filter is_tick es).

(** A velocity command that only turns or only drives forward, with an
    angular velocity the clamp lets through. *)
Definition cmd_ok (t : Twist) : Prop :=
  v_y (linear t) = 0 /\ v_z (linear t) = 0
  /\ v_x (angular t) = 0 /\ v_y (angular t) = 0
  /\ (v_x (linear t) = 0 \/ v_z (angular t) = 0)
  /\ (0.3 <? abs (v_z (angular t))) = false.

(** The position an announcement carries. *)
Definition announced_point (m : PoseStamped) : vec2 :=
  (v_x (position (pose m)), v_y (position (pose m))).

(** How far the mission has got: two phases per waypoint, and the end. *)
Definition progress (s : DrawingNode) : nat :=
  2 * waypt_index s
  + (if String.eqb (state s) "driving" then 1 else 0)
  + (if destroyed s then 1 else 0).

(** What holds of the node after every callback of every run. *)
Definition run_inv (s : DrawingNode) : Prop :=
  (waypt_index s < List.length waypoints)%nat
  /\ nth_error waypoints (waypt_index s) = Some (target_point s)
  /\ (state s = "turning"%string \/ state s = "driving"%string)
  /\ map announced_point (pose_target s)
     = firstn (waypt_index s) (tl waypoints)
  /\ Forall (fun m => frame_id m = "map"%string
                      /\ v_z (position (pose m)) = 0) (pose_target s)
  /\ Forall cmd_ok (cmd_vel s)
  /\ (destroyed s = true ->
      waypt_index s = (List.length waypoints - 1)%nat
      /\ state s = "driving"%string
      /\ exists l v, cmd_vel s = l ++ [set_linear_x Twist_0 v; Twist_0]).

(** ** Binary64 facts

    The comparisons of the kernel's floats are specified on [spec_float];
    the facts the controllers need are proved there and carried back. *)

Module F64.

Lemma compare_cont_swap (m1 m2 : positive) :
  Pos.compare_cont Eq m2 m1 = CompOpp (Pos.compare_cont Eq m1 m2).
Proof. exact (Pos.compare_antisym m1 m2). Qed.

Lemma SFcompare_swap (x y : spec_float) :
  SFcompare y x = option_map CompOpp (SFcompare x y).
Proof.
  destruct x as [[]|[]| |[] mx ex], y as [[]|[]| |[] my ey];
    cbn; try reflexivity;
    rewrite (Z.compare_antisym ex ey), (compare_cont_swap mx my);
    destruct (ex ?= ey)%Z; cbn; try reflexivity;
    destruct (Pos.compare_cont Eq mx my); reflexivity.
Qed.

Lemma SFcompare_opp (x y : spec_float) :
  SFcompare (SFopp x) (SFopp y) = SFcompare y x.
Proof.
  destruct x as [[]|[]| |[] mx ex], y as [[]|[]| |[] my ey];
    cbn; try reflexivity;
    rewrite (Z.compare_antisym ex ey), (compare_cont_swap mx my);
    destruct (ex ?= ey)%Z; cbn; try reflexivity;
    destruct (Pos.compare_cont Eq mx my); reflexivity.
Qed.

Lemma SFopp_involutive (x : spec_float) : SFopp (SFopp x) = x.
Proof. destruct x as [[]|[]| |[] m e]; reflexivity. Qed.

Lemma SFabs_cases (x : spec_float) : SFabs x = x \/ SFabs x = SFopp x.
Proof. destruct x as [[]|[]| |[] m e]; cbn; auto. Qed.

Lemma ltb_cmp x y :
  (x <? y) = match cmp x y with Some Lt => true | _ => false end.
Proof. apply FloatAxioms.ltb_spec. Qed.
Lemma eqb_cmp x y :
  (x =? y) = match cmp x y with Some Eq => true | _ => false end.
Proof. apply FloatAxioms.eqb_spec. Qed.

Lemma cmp_swap x y : cmp y x = option_map CompOpp (cmp x y).
Proof. apply SFcompare_swap. Qed.

Lemma cmp_opp x y : cmp (- x) (- y) = cmp y x.
Proof. unfold cmp. rewrite !opp_spec. apply SFcompare_opp. Qed.

Lemma opp_involutive x : - - x = x.
Proof.
  apply Prim2SF_inj. rewrite !opp_spec. apply SFopp_involutive.
Qed.

Lemma abs_cases x : abs x = x \/ abs x = - x.
Proof.
  destruct (SFabs_cases (Prim2SF x)) as [H | H]; [left | right];
    apply Prim2SF_inj; rewrite ?opp_spec, abs_spec; exact H.
Qed.

Lemma is_nan_cmp x : is_nan x = match cmp x x with None => true | _ => false end.
Proof.
  unfold is_nan. rewrite eqb_cmp.
  generalize (cmp_swap x x). destruct (cmp x x) as [[]|]; cbn; congruence.
Qed.

Lemma cmp_nan_l x y : is_nan x = true -> cmp x y = None.
Proof.
  rewrite is_nan_cmp. unfold cmp.
  destruct (Prim2SF x) as [[]|[]| |[] m e]; cbn;
    rewrite ?Z.compare_refl, ?Pos.compare_cont_refl; cbn;
    try discriminate; reflexivity.
Qed.

(** [x - x] is [+0] for a finite [x], NaN otherwise. *)
Lemma sub_diag x : x - x = 0 \/ x - x = nan.
Proof.
  assert (H : Prim2SF (x - x) = S754_zero false \/ Prim2SF (x - x) = S754_nan).
  { rewrite sub_spec. unfold SF64sub.
    destruct (Prim2SF x) as [[]|[]| |[] m e]; cbn; auto;
      rewrite ?Z.sub_diag, ?Z.add_opp_diag_l, ?Z.add_opp_diag_r,
              ?Z.pos_sub_diag; cbn; auto. }
  destruct H as [H | H]; [left | right];
    rewrite <- (SF2Prim_Prim2SF (x - x)), H; reflexivity.
Qed.

Lemma is_nan_spec x : is_nan x = true <-> Prim2SF x = S754_nan.
Proof.
  rewrite is_nan_cmp. unfold cmp.
  destruct (Prim2SF x) as [[]|[]| |[] m e]; cbn;
    rewrite ?Z.compare_refl, ?Pos.compare_cont_refl; cbn;
    split; congruence.
Qed.

Lemma cmp_nan_r x y : is_nan y = true -> cmp x y = None.
Proof. intros H. rewrite cmp_swap, (cmp_nan_l y x H). reflexivity. Qed.

Lemma cmp_None x y : cmp x y = None -> is_nan x = true \/ is_nan y = true.
Proof.
  rewrite !is_nan_spec. unfold cmp.
  destruct (Prim2SF x) as [[]|[]| |[] mx ex],
           (Prim2SF y) as [[]|[]| |[] my ey]; cbn; auto; discriminate.
Qed.

Lemma is_nan_opp x : is_nan (- x) = is_nan x.
Proof. rewrite !is_nan_cmp, cmp_opp. reflexivity. Qed.

Lemma is_nan_abs x : is_nan (abs x) = is_nan x.
Proof.
  destruct (abs_cases x) as [-> | ->]; [reflexivity | apply is_nan_opp].
Qed.

(** Strictly inside [(-b, b)]: the magnitude is strictly below [b]. *)
Lemma abs_inside b x :
  cmp (- b) x = Some Lt -> cmp x b = Some Lt -> cmp (abs x) b = Some Lt.
Proof.
  intros Hlo Hhi. destruct (abs_cases x) as [-> | ->]; [exact Hhi |].
  rewrite <- (opp_involutive x), cmp_opp in Hlo. exact Hlo.
Qed.

End F64.

(** ** The clamp of the heading controller *)

Section Clip.

Import F64.

Local Abbreviation max_omega := (0.3%float) (only parsing).

Lemma clip_cases (p : float) : clip_case p (clip p (- max_omega) max_omega).
Proof.
  unfold clip, fmax_np.
  destruct (is_nan p) eqn:Hn.
  - unfold fmin_np. rewrite Hn. now constructor.
  - rewrite ltb_cmp.
    destruct (cmp (- max_omega) p) as [[]|] eqn:Hlo.
    + change (fmin_np (- max_omega) max_omega) with (- max_omega).
      apply clip_low. right. rewrite cmp_swap, Hlo. reflexivity.
    + unfold fmin_np. rewrite Hn, ltb_cmp.
      destruct (cmp p max_omega) as [[]|] eqn:Hhi.
      * apply clip_high. right. rewrite cmp_swap, Hhi. reflexivity.
      * now apply clip_inside.
      * apply clip_high. left. rewrite cmp_swap, Hhi. reflexivity.
      * destruct (cmp_None _ _ Hhi) as [H | H]; [congruence | discriminate].
    + change (fmin_np (- max_omega) max_omega) with (- max_omega).
      apply clip_low. left. rewrite cmp_swap, Hlo. reflexivity.
    + destruct (cmp_None _ _ Hlo) as [H | H]; [discriminate | congruence].
Qed.

(** The magnitude of the clamped value never exceeds 0.3. *)
Lemma clip_not_above (p : float) :
  (max_omega <? abs (clip p (- max_omega) max_omega)) = false.
Proof.
  destruct (clip_cases p) as [Hn | _ | _ | Hlo Hhi]; try reflexivity.
  - rewrite ltb_cmp, cmp_nan_r; [reflexivity |].
    now rewrite is_nan_abs.
  - rewrite ltb_cmp, cmp_swap, (abs_inside max_omega p Hlo Hhi). reflexivity.
Qed.




End Clip.

(** ** What one call of each method does *)

Section Steps.

Context {ext : Externals}.

Lemma rotate_to_angle_eq (s : DrawingNode) :
  rotate_to_angle s = Ok (angle_error_of s) (published (turn_cmd s) s).
Proof. reflexivity. Qed.

Lemma drive_to_point_eq (s : DrawingNode) :
  drive_to_point s = Ok (projected_error_of s) (published (drive_cmd s) s).
Proof. reflexivity. Qed.

Lemma init_eq (s : DrawingNode) (p : vec2) :
  nth_error waypoints (waypt_index s) = Some p ->
  init s = Ok tt (resolved p s).
Proof.
  intros Hp. unfold init, bind, get, waypoint_row.
  rewrite Hp. reflexivity.
Qed.

Lemma recalculate_targets_eq (s : DrawingNode) (p : vec2) :
  nth_error waypoints (waypt_index s) = Some p ->
  recalculate_targets s = Ok tt (announced (resolved p s)).
Proof.
  intros Hp. unfold recalculate_targets, bind, get, waypoint_row.
  rewrite Hp. reflexivity.
Qed.


(** [move] in the turning state. *)
Lemma move_turning (s : DrawingNode) :
  state s = "turning"%string ->
  move s = Ok tt (if abs (angle_error_of s) <? 0.03
                  then with_state "driving" (published (turn_cmd s) s)
                  else published (turn_cmd s) s).
Proof.
  intros Hs. unfold move, bind, get. rewrite Hs.
  cbn [String.eqb Ascii.eqb Bool.eqb]. rewrite rotate_to_angle_eq.
  destruct (abs (angle_error_of s) <? 0.03); reflexivity.
Qed.

(** [move] in the driving state, away from the target. *)
Lemma move_driving_on (s : DrawingNode) :
  state s = "driving"%string ->
  (abs (projected_error_of s) <? 0.03) = false ->
  move s = Ok tt (published (drive_cmd s) s).
Proof.
  intros Hs He. unfold move, bind, get. rewrite Hs.
  cbn [String.eqb Ascii.eqb Bool.eqb]. rewrite drive_to_point_eq, He.
  reflexivity.
Qed.

(** [move] in the driving state, at a target that is not the last. *)
Lemma move_driving_next (s : DrawingNode) (p : vec2) :
  state s = "driving"%string ->
  (abs (projected_error_of s) <? 0.03) = true ->
  nth_error waypoints (waypt_index s + 1) = Some p ->
  move s = Ok tt (with_state "turning"
                    (announced
                       (resolved p
                          (with_waypt_index (waypt_index s + 1)
                             (published (drive_cmd s) s))))).
Proof.
  intros Hs He Hp. unfold move, bind, get. rewrite Hs.
  cbn [String.eqb Ascii.eqb Bool.eqb]. rewrite drive_to_point_eq, He.
  assert (Hlt : (waypt_index (published (drive_cmd s) s)
                 <? List.length waypoints - 1)%nat = true).
  { apply Nat.ltb_lt. cbn [published with_cmd_vel waypt_index].
    assert (H : (waypt_index s + 1 < List.length waypoints)%nat)
      by (apply nth_error_Some; congruence).
    cbn in H |- *. lia. }
  rewrite Hlt. unfold modify at 1.
  rewrite (recalculate_targets_eq _ p) by exact Hp. reflexivity.
Qed.

(** [move] in the driving state, at the last target. *)
Lemma move_driving_last (s : DrawingNode) :
  state s = "driving"%string ->
  (abs (projected_error_of s) <? 0.03) = true ->
  (waypt_index s <? List.length waypoints - 1)%nat = false ->
  move s = Ok tt (with_destroyed true
                    (published Twist_0 (published (drive_cmd s) s))).
Proof.
  intros Hs He Hi. unfold move, bind, get. rewrite Hs.
  cbn [String.eqb Ascii.eqb Bool.eqb]. rewrite drive_to_point_eq, He.
  cbn [published with_cmd_vel waypt_index]. rewrite Hi. reflexivity.
Qed.

(** [move] in any other state. *)
Lemma move_idle (s : DrawingNode) :
  String.eqb (state s) "turning" = false ->
  String.eqb (state s) "driving" = false ->
  move s = Ok tt s.
Proof.
  intros H1 H2. unfold move, bind, get. rewrite H1, H2.
  reflexivity.
Qed.

Lemma pose_callback_eq (m : PoseStamped) (s : DrawingNode) :
  pose_callback m s
  = Ok tt (with_current_point
             (v_x (position (pose m)), v_y (position (pose m)))
             (with_current_angle
                (snd (euler_from_quaternion
                        (q_x (orientation (pose m)))
                        (q_y (orientation (pose m)))
                        (q_z (orientation (pose m)))
                        (q_w (orientation (pose m))))) s)).
Proof.
  unfold pose_callback.
  destruct (euler_from_quaternion _ _ _ _) as [[r pt] y]. reflexivity.
Qed.

Lemma move_cases (s : DrawingNode) : move_spec s (move s).
Proof.
  destruct (String.eqb_spec (state s) "turning") as [Ht | Ht].
  - rewrite (move_turning s Ht).
    destruct (abs (angle_error_of s) <? 0.03) eqn:He;
      [now apply move_turn_done | now apply move_turn_on].
  - destruct (String.eqb_spec (state s) "driving") as [Hd | Hd].
    + destruct (abs (projected_error_of s) <? 0.03) eqn:He.
      * destruct (waypt_index s <? List.length waypoints - 1)%nat eqn:Hi.
        -- assert (Hlt : (waypt_index s + 1 < List.length waypoints)%nat)
             by (apply Nat.ltb_lt in Hi; lia).
           destruct (nth_error waypoints (waypt_index s + 1)) as [p |] eqn:Hp;
             [| apply nth_error_None in Hp; lia].
           rewrite (move_driving_next s p Hd He Hp).
           now apply move_drive_next.
        -- rewrite (move_driving_last s Hd He Hi). now apply move_drive_last.
      * rewrite (move_driving_on s Hd He). now apply move_drive_on.
    + rewrite move_idle; [now apply move_other | |];
        now apply String.eqb_neq.
Qed.

(** [move] never raises: the row it asks for is guarded by the test on
    [waypt_index]. *)
Lemma move_returns (s : DrawingNode) : exists s', move s = Ok tt s'.
Proof. destruct (move_cases s); eauto. Qed.

Lemma dispatch_destroyed (e : event) (s : DrawingNode) :
  destroyed s = true -> dispatch e s = Ok tt s.
Proof. intros H. unfold dispatch, bind, get. rewrite H. reflexivity. Qed.

Lemma dispatch_tick (s : DrawingNode) :
  destroyed s = false -> dispatch Tick s = move s.
Proof. intros H. unfold dispatch, bind, get. rewrite H. reflexivity. Qed.

Lemma dispatch_pose (m : PoseStamped) (s : DrawingNode) :
  destroyed s = false -> dispatch (PoseEstimate m) s = pose_callback m s.
Proof. intros H. unfold dispatch, bind, get. rewrite H. reflexivity. Qed.

Lemma dispatch_returns (e : event) (s : DrawingNode) :
  exists s', dispatch e s = Ok tt s'.
Proof.
  destruct (destroyed s) eqn:Hd.
  - exists s. now apply dispatch_destroyed.
  - destruct e as [| m].
    + rewrite dispatch_tick by exact Hd. apply move_returns.
    + rewrite dispatch_pose, pose_callback_eq by exact Hd. eauto.
Qed.

Lemma spin_app (es es' : list event) (s : DrawingNode) :
  spin (es ++ es') s = (spin es ;; spin es') s.
Proof.
  revert s. induction es as [| e es IH]; intros s; [reflexivity |].
  cbn [spin app]. unfold bind.
  destruct (dispatch e s) as [[] s1 | x]; [| reflexivity].
  rewrite IH. reflexivity.
Qed.

(** A property kept by every callback holds along every run. *)
Lemma spin_invariant (P : DrawingNode -> Prop) :
  (forall e s, P s -> exists s', dispatch e s = Ok tt s' /\ P s') ->
  forall es s, P s -> exists s', spin es s = Ok tt s' /\ P s'.
Proof.
  intros Hstep. induction es as [| e es IH]; intros s Hs.
  - exists s. now split.
  - destruct (Hstep e s Hs) as (s1 & H1 & HP1).
    destruct (IH s1 HP1) as (s2 & H2 & HP2).
    exists s2. split; [| exact HP2].
    cbn [spin]. unfold bind. rewrite H1. exact H2.
Qed.


Lemma init_constructed : init class_attributes = Ok tt constructed.
Proof. now apply init_eq. Qed.

Lemma main_eq (es : list event) : main es = spin es constructed.
Proof. unfold main, bind. rewrite init_constructed. reflexivity. Qed.

End Steps.

(** ** The heading controller *)


(** The difference is not wrapped: from heading -3.1 to target 3.1 the
    error is 6.2 and the command saturates at +0.3, the long way round. *)
Example heading_error_unwrapped :
  let s := with_current_angle (-3.1) (with_target_angle 3.1 class_attributes) in
  rotate_to_angle s
  = Ok 6.2 (with_cmd_vel [set_angular_z Twist_0 0.3] s).
Proof. reflexivity. Qed.

Section Turning.

Context {ext : Externals}.

(** C6.  In the turning state the test is strict: the tick leaves the
    node in "driving" exactly when [|error| < 0.03], and in "turning"
    otherwise; so the state is left on the first tick whose error is
    below the threshold and on no earlier one.  An error of exactly 0.03
    is not converged, an error of 0.0299 is. *)
Theorem turning_threshold_strict (s : DrawingNode) :
  state s = "turning"%string ->
  exists s', move s = Ok tt s'
    /\ (state s' = "driving"%string <-> (abs (angle_error_of s) <? 0.03) = true)
    /\ (state s' = "turning"%string <-> (abs (angle_error_of s) <? 0.03) = false)
    /\ (angle_error_of s = 0.03 -> state s' = "turning"%string)
    /\ (angle_error_of s = 0.0299 -> state s' = "driving"%string).
Proof.
  intros Hs. rewrite (move_turning s Hs).
  destruct (abs (angle_error_of s) <? 0.03) eqn:He;
    eexists; (split; [reflexivity |]); cbn [state with_state published with_cmd_vel];
    rewrite ?Hs.
  - repeat split; try congruence.
    intros H. rewrite H in He. discriminate He.
  - repeat split; try congruence.
    intros H. rewrite H in He. discriminate He.
Qed.

(** C9.  On the tick where turning converges, the command
    [clip (0.3 * error) (-0.3) 0.3] computed from that very error is
    published first, and only then does the state become "driving".  The
    command need not be zero: at an error of 0.02 it is 0.006. *)
Theorem converging_tick_publishes_turn (s : DrawingNode) :
  state s = "turning"%string ->
  (abs (angle_error_of s) <? 0.03) = true ->
  exists s', move s = Ok tt s'
    /\ state s' = "driving"%string
    /\ cmd_vel s'
       = cmd_vel s
         ++ [set_angular_z Twist_0
               (clip (0.3 * (target_angle s - current_angle s)) (- (0.3)) 0.3)]
    /\ (angle_error_of s = 0.02 ->
        cmd_vel s' = cmd_vel s ++ [set_angular_z Twist_0 0.006]
        /\ set_angular_z Twist_0 0.006 <> Twist_0).
Proof.
  intros Hs He. rewrite (move_turning s Hs), He.
  eexists. split; [reflexivity |]. split; [reflexivity |].
  split; [reflexivity |].
  intros H. cbn [cmd_vel with_state published with_cmd_vel].
  unfold turn_cmd. rewrite H. split; [reflexivity | discriminate].
Qed.

End Turning.

(** ** The driving controller and the end of the mission *)

Section Driving.

Context {ext : Externals}.

(** What a callback leaves alone while the waypoint index stays put. *)
Lemma leg_frame (e : event) (s s' : DrawingNode) :
  dispatch e s = Ok tt s' ->
  waypt_index s' = waypt_index s ->
  target_point s' = target_point s
  /\ target_direction s' = target_direction s
  /\ target_angle s' = target_angle s.
Proof.
  intros Hd Hi. destruct (destroyed s) eqn:Hx.
  - rewrite (dispatch_destroyed e s Hx) in Hd. injection Hd as <-. auto.
  - destruct e as [| m].
    + rewrite (dispatch_tick s Hx) in Hd.
      destruct (move_cases s); injection Hd as <-; auto.
      cbn in Hi. lia.
    + rewrite (dispatch_pose m s Hx), pose_callback_eq in Hd.
      injection Hd as <-. auto.
Qed.




End Driving.

(** ** Resolving a target *)

Section Resolving.

Context {ext : Externals}.

(** The direction towards a point the robot already stands on: both
    components are 0/0. *)
Lemma direction_to_self (p : vec2) :
  vdiv (vsub p p) (norm (vsub p p)) = (nan, nan).
Proof.
  destruct p as [x y]. unfold vdiv, norm, vdot, vsub. cbn [fst snd].
  destruct (F64.sub_diag x) as [-> | ->], (F64.sub_diag y) as [-> | ->];
    reflexivity.
Qed.

(** C1, as the code has it.  When the active waypoint is exactly the
    robot's current position, [recalculate_targets] signals nothing and
    has no guard: it divides the zero difference by its zero norm,
    returns normally, stores the undefined direction [(nan, nan)] in the
    node and publishes the announcement of the target as for any other
    waypoint. *)
Theorem degenerate_target_unguarded (s : DrawingNode) :
  nth_error waypoints (waypt_index s) = Some (current_point s) ->
  exists s', recalculate_targets s = Ok tt s'
    /\ target_point s' = current_point s
    /\ target_direction s' = (nan, nan)
    /\ is_nan (fst (target_direction s')) = true
    /\ is_nan (snd (target_direction s')) = true
    /\ pose_target s' = pose_target s ++ [announcement s'].
Proof.
  intros Hp. rewrite (recalculate_targets_eq s _ Hp).
  eexists. split; [reflexivity |].
  cbn [target_point target_direction pose_target announced resolved
       with_target_direction with_target_angle with_target_point
       with_pose_target].
  rewrite direction_to_self. repeat split; reflexivity.
Qed.

(** C4, as the code has it.  With the robot at (0, 0) and heading 0 at
    construction, the first target is row 0 of [waypoints], the point
    (0, 0.3); its heading is [arctan2 0.3 0], that is pi/2 (about
    1.571 rad), and its direction is (0, 1).  The first step of the
    heading controller then has the error pi/2 and publishes the
    saturated angular velocity 0.3. *)
Theorem first_target (Hatan : arctan2 0.3 0 = 0x1.921fb54442d18p+0) :
  exists s, main [] = Ok tt s
    /\ current_point s = (0, 0) /\ current_angle s = 0
    /\ target_point s = (0, 0.3)
    /\ target_angle s = 0x1.921fb54442d18p+0
    /\ (1.5707 <? target_angle s) && (target_angle s <? 1.5708) = true
    /\ target_direction s = (0, 1)
    /\ rotate_to_angle s
       = Ok 0x1.921fb54442d18p+0
            (with_cmd_vel [set_angular_z Twist_0 0.3] s).
Proof.
  rewrite main_eq. exists constructed. split; [reflexivity |].
  unfold rotate_to_angle, bind, get, constructed, resolved.
  cbn [current_point current_angle target_point target_angle
       target_direction class_attributes with_target_direction
       with_target_angle with_target_point vsub fst snd].
  change (0.3 - 0) with (0.3). change (0 - 0) with (0).
  rewrite Hatan. repeat split; reflexivity.
Qed.

End Resolving.

(** ** Runs of the node *)

Section Runs.

Context {ext : Externals}.

(** One callback: the index stays or grows by one within the table, and
    an announcement is published exactly when it grows. *)
Lemma dispatch_advance (e : event) (s : DrawingNode) :
  exists s', dispatch e s = Ok tt s'
    /\ ((waypt_index s' = waypt_index s /\ pose_target s' = pose_target s)
        \/ ((waypt_index s' = waypt_index s + 1)%nat
            /\ (waypt_index s + 1 < List.length waypoints)%nat
            /\ nth_error waypoints (waypt_index s') = Some (target_point s')
            /\ pose_target s' = pose_target s ++ [announcement s'])).
Proof.
  destruct (destroyed s) eqn:Hx.
  - exists s. split; [now apply dispatch_destroyed | auto].
  - destruct e as [| m].
    + rewrite (dispatch_tick s Hx).
      destruct (move_cases s); eexists; (split; [reflexivity |]); auto 6.
    + rewrite (dispatch_pose m s Hx), pose_callback_eq.
      eexists; split; [reflexivity | auto].
Qed.

Lemma spin_monotone (es : list event) (s : DrawingNode) :
  exists s', spin es s = Ok tt s' /\ (waypt_index s <= waypt_index s')%nat.
Proof.
  revert s. induction es as [| e es IH]; intros s.
  - exists s. now split.
  - destruct (dispatch_advance e s) as (s1 & H1 & Hstep).
    destruct (IH s1) as (s2 & H2 & Hle).
    exists s2. cbn [spin]. unfold bind. rewrite H1. split; [exact H2 |].
    destruct Hstep as [[Hi _] | [Hi _]]; lia.
Qed.

(** C7.  Along every run the waypoint index stays inside the table
    ([0 <= waypt_index < len(waypoints)]; it is a natural number), each
    callback leaves it unchanged or adds exactly one, and it never
    decreases.  Every callback preserves the bound from any node that
    satisfies it, and never raises. *)
Theorem cursor_monotone_in_range (es : list event) (e : event) :
  (exists s s', main es = Ok tt s /\ main (es ++ [e]) = Ok tt s'
     /\ (waypt_index s < List.length waypoints)%nat
     /\ (waypt_index s' < List.length waypoints)%nat
     /\ (waypt_index s' = waypt_index s
         \/ (waypt_index s' = waypt_index s + 1)%nat)
     /\ forall es', exists s'', main (es ++ es') = Ok tt s''
                      /\ (waypt_index s <= waypt_index s'')%nat)
  /\ (forall s0, (waypt_index s0 < List.length waypoints)%nat ->
        exists s1, dispatch e s0 = Ok tt s1
          /\ (waypt_index s1 < List.length waypoints)%nat
          /\ (waypt_index s1 = waypt_index s0
              \/ (waypt_index s1 = waypt_index s0 + 1)%nat)).
Proof.
  assert (Hstep : forall e0 s0,
             (waypt_index s0 < List.length waypoints)%nat ->
             exists s1, dispatch e0 s0 = Ok tt s1
               /\ (waypt_index s1 < List.length waypoints)%nat).
  { intros e0 s0 H0. destruct (dispatch_advance e0 s0) as (s1 & H1 & Hs).
    exists s1. split; [exact H1 |].
    destruct Hs as [[-> _] | (-> & Hlt & _)]; assumption. }
  split.
  - destruct (spin_invariant _ Hstep es constructed) as (s & Hs & Hin);
      [cbn; lia |].
    destruct (dispatch_advance e s) as (s' & Hs' & Hadv).
    exists s, s'. rewrite !main_eq, spin_app. unfold bind at 1.
    rewrite Hs. cbn [spin]. unfold bind at 1. rewrite Hs'.
    split; [reflexivity |]. split; [reflexivity |]. split; [exact Hin |].
    split; [destruct Hadv as [[-> _] | (-> & Hlt & _)]; assumption |].
    split; [destruct Hadv as [[-> _] | (-> & _)]; auto |].
    intros es'. destruct (spin_monotone es' s) as (s'' & Hs'' & Hle).
    exists s''. rewrite main_eq, spin_app. unfold bind. rewrite Hs.
    now split.
  - intros s0 H0. destruct (dispatch_advance e s0) as (s1 & H1 & Hs).
    exists s1. split; [exact H1 |].
    destruct Hs as [[-> _] | (-> & Hlt & _)]; auto.
Qed.

(** C8, on the code.  [__init__] resolves the first target, the point
    (0, 0.3), and publishes no announcement of it; every callback that
    advances the waypoint index publishes exactly one announcement,
    which carries the new target point and the quaternion
    [quaternion_from_euler 0 0 target_angle], and no other callback
    publishes one.  Along every run the number of announcements is
    therefore the waypoint index: one per advance, none for the initial
    waypoint. *)
Theorem announcements_count_advances (es : list event) (e : event) :
  (exists s0, main [] = Ok tt s0
     /\ target_point s0 = (0, 0.3) /\ waypt_index s0 = 0%nat
     /\ pose_target s0 = [])
  /\ (exists s s', main es = Ok tt s /\ main (es ++ [e]) = Ok tt s'
        /\ List.length (pose_target s) = waypt_index s
        /\ ((waypt_index s' = waypt_index s
             /\ pose_target s' = pose_target s)
            \/ ((waypt_index s' = waypt_index s + 1)%nat
                /\ pose_target s'
                   = pose_target s
                     ++ [mkPoseStamped "map"
                           (mkPose
                              (mkVector3 (fst (target_point s'))
                                         (snd (target_point s')) 0)
                              (quaternion_from_euler 0 0 (target_angle s')))]))).
Proof.
  split.
  - exists constructed. rewrite main_eq. repeat split; reflexivity.
  - assert (Hstep : forall e0 s0,
               List.length (pose_target s0) = waypt_index s0 ->
               exists s1, dispatch e0 s0 = Ok tt s1
                 /\ List.length (pose_target s1) = waypt_index s1).
    { intros e0 s0 H0. destruct (dispatch_advance e0 s0) as (s1 & H1 & Hs).
      exists s1. split; [exact H1 |].
      destruct Hs as [[-> ->] | (-> & _ & _ & ->)]; [exact H0 |].
      rewrite length_app. cbn [List.length]. lia. }
    destruct (spin_invariant _ Hstep es constructed) as (s & Hs & Hlen);
      [reflexivity |].
    destruct (dispatch_advance e s) as (s' & Hs' & Hadv).
    exists s, s'. rewrite !main_eq, spin_app. unfold bind at 1.
    rewrite Hs. cbn [spin]. unfold bind at 1. rewrite Hs'.
    split; [reflexivity |]. split; [reflexivity |]. split; [exact Hlen |].
    destruct Hadv as [[Hi Hp] | (Hi & _ & _ & Hp)]; [left; now split |].
    right. split; [exact Hi |]. rewrite Hp. unfold announcement.
    destruct (quaternion_from_euler 0 0 (target_angle s')); reflexivity.
Qed.

End Runs.

(** ** Concrete runs with the reference functions *)

Example mission_last_leg :
  waypt_index (run mission) = 3%nat
  /\ state (run mission) = "driving"%string
  /\ target_point (run mission) = (0, 0)
  /\ target_direction (run mission) = (-1, 0)
  /\ List.length (pose_target (run mission)) = 3%nat
  /\ destroyed (run mission) = false.
Proof. vm_compute. repeat split; reflexivity. Qed.

Example mission_completes :
  destroyed (run (mission ++ [Tick])) = true
  /\ run (mission ++ [Tick; Tick; PoseEstimate (pose_at 1 1 1); Tick])
     = run (mission ++ [Tick])
  /\ map (fun t => v_x (linear t)) (cmd_vel (run (mission ++ [Tick])))
     = [0; 0; 0; 0; 0; 0; 0; 0.002; 0].
Proof. vm_compute. repeat split; reflexivity. Qed.

(** Against the guard of C1, a run from construction.  The robot is
    reported at (0.3, 0.3) facing pi/2 while the first leg is active.  The along-track error of
    that leg is zero, so the second tick advances to waypoint 1, which is
    the point the robot stands on: [recalculate_targets] returns normally
    with the direction (nan, nan). *)
Lemma degenerate_target_run :
  exists s,
    @main reference [PoseEstimate (pose_at 0.3 0.3 pi_2); Tick; Tick] = Ok tt s
    /\ waypt_index s = 1%nat
    /\ current_point s = (0.3, 0.3)
    /\ target_point s = (0.3, 0.3)
    /\ target_direction s = (nan, nan).
Proof. eexists. split; [vm_compute; reflexivity |]. repeat split. Qed.

Lemma degenerate_target_unguarded_witness :
  let s := with_waypt_index 1 (with_current_point (0.3, 0.3) class_attributes) in
  nth_error waypoints (waypt_index s) = Some (current_point s)
  /\ exists s', @recalculate_targets reference s = Ok tt s'
       /\ target_point s' = current_point s
       /\ target_direction s' = (nan, nan)
       /\ is_nan (fst (target_direction s')) = true
       /\ is_nan (snd (target_direction s')) = true
       /\ pose_target s' = pose_target s ++ [@announcement reference s'].
Proof.
  split; [reflexivity |].
  apply (@degenerate_target_unguarded reference). reflexivity.
Defined.


(** Against the scenario of C4: after construction the first target is
    (0, 0.3), not (0.3, 0.3); its direction is (0, 1) and its heading
    pi/2, not 0.785. *)
Lemma first_target_is_row_0 :
  exists s, @main reference [] = Ok tt s
    /\ target_point s = (0, 0.3)
    /\ target_point s <> (0.3, 0.3)
    /\ target_direction s = (0, 1)
    /\ target_angle s = pi_2
    /\ (target_angle s <? 0.786) = false.
Proof.
  eexists. split; [vm_compute; reflexivity |].
  cbn [target_point target_direction target_angle].
  repeat split; try reflexivity.
  intros H. apply (f_equal (fun p : vec2 => fst p =? 0.3)) in H.
  discriminate H.
Qed.

Lemma first_target_witness :
  @arctan2 reference 0.3 0 = 0x1.921fb54442d18p+0
  /\ exists s, @main reference [] = Ok tt s
       /\ current_point s = (0, 0) /\ current_angle s = 0
       /\ target_point s = (0, 0.3)
       /\ target_angle s = 0x1.921fb54442d18p+0
       /\ (1.5707 <? target_angle s) && (target_angle s <? 1.5708) = true
       /\ target_direction s = (0, 1)
       /\ rotate_to_angle s
          = Ok 0x1.921fb54442d18p+0
               (with_cmd_vel [set_angular_z Twist_0 0.3] s).
Proof.
  split; [reflexivity |].
  apply (@first_target reference). reflexivity.
Defined.

Lemma turning_threshold_strict_witness :
  let at_error (a : float) := with_target_angle a class_attributes in
  (state (at_error 0.03) = "turning"%string
   /\ exists s', @move reference (at_error 0.03) = Ok tt s'
        /\ state s' = "turning"%string)
  /\ (state (at_error 0.0299) = "turning"%string
      /\ exists s', @move reference (at_error 0.0299) = Ok tt s'
           /\ state s' = "driving"%string).
Proof.
  intros at_error. split; (split; [reflexivity |]).
  - destruct (@turning_threshold_strict reference (at_error 0.03) eq_refl)
      as (s' & Hm & _ & _ & H & _).
    exists s'. split; [exact Hm | apply H; reflexivity].
  - destruct (@turning_threshold_strict reference (at_error 0.0299) eq_refl)
      as (s' & Hm & _ & _ & _ & H).
    exists s'. split; [exact Hm | apply H; reflexivity].
Defined.

Lemma converging_tick_publishes_turn_witness :
  let s := with_target_angle 0.02 class_attributes in
  state s = "turning"%string
  /\ (abs (angle_error_of s) <? 0.03) = true
  /\ exists s', @move reference s = Ok tt s'
       /\ state s' = "driving"%string
       /\ cmd_vel s' = [set_angular_z Twist_0 0.006]
       /\ set_angular_z Twist_0 0.006 <> Twist_0.
Proof.
  intros s. split; [reflexivity |]. split; [reflexivity |].
  destruct (@converging_tick_publishes_turn reference s eq_refl eq_refl)
    as (s' & Hm & Hs & _ & H).
  exists s'. split; [exact Hm |]. split; [exact Hs |].
  destruct (H eq_refl) as [Hc Hne]. split; [exact Hc | exact Hne].
Defined.


(** ** Invariants of every run *)

Section Invariants.

Context {ext : Externals}.

Lemma cmd_ok_turn (s : DrawingNode) : cmd_ok (turn_cmd s).
Proof.
  unfold cmd_ok, turn_cmd. cbn [set_angular_z Twist_0 Vector3_0 linear angular
                                v_x v_y v_z].
  repeat split; auto. apply clip_not_above.
Qed.

Lemma cmd_ok_drive (s : DrawingNode) : cmd_ok (drive_cmd s).
Proof. unfold cmd_ok, drive_cmd. cbn. repeat split; auto. Qed.

Lemma cmd_ok_zero : cmd_ok Twist_0.
Proof. unfold cmd_ok. cbn. repeat split; auto. Qed.

(** The rows announced so far, one more after an advance. *)
Lemma announced_rows_next (i : nat) (p : vec2) :
  nth_error waypoints (i + 1) = Some p ->
  firstn (i + 1) (tl waypoints) = firstn i (tl waypoints) ++ [p].
Proof.
  rewrite Nat.add_1_r.
  destruct i as [| [| [| i]]]; cbn; intros H;
    try (destruct i; discriminate H);
    injection H as <-; reflexivity.
Qed.

Lemma run_inv_constructed : run_inv constructed.
Proof.
  unfold run_inv. cbn. repeat split; auto; try constructor; discriminate.
Qed.

Lemma run_inv_step (e : event) (s : DrawingNode) :
  run_inv s -> exists s', dispatch e s = Ok tt s' /\ run_inv s'.
Proof.
  intros (Hlt & Hrow & Hst & Hann & Hfr & Hcmd & Hend).
  destruct (destroyed s) eqn:Hx.
  { exists s. split; [now apply dispatch_destroyed |].
    destruct (Hend eq_refl) as (H1 & H2 & H3).
    unfold run_inv. rewrite Hx. repeat split; auto. }
  destruct e as [| m].
  - rewrite (dispatch_tick s Hx).
    destruct (move_cases s) as [Ht He | Ht He | Hd He | p Hd He Hn Hp
                                | Hd He Hi | Hnt Hnd];
      eexists; (split; [reflexivity |]); unfold run_inv;
      cbn [waypt_index target_point state pose_target cmd_vel destroyed
           published announced resolved with_state with_cmd_vel
           with_pose_target with_target_direction with_target_angle
           with_target_point with_waypt_index with_destroyed];
      rewrite ?Hx.
    + repeat split; auto; try discriminate.
      apply Forall_app. split; [exact Hcmd |].
      constructor; [apply cmd_ok_turn | constructor].
    + repeat split; auto; try discriminate.
      apply Forall_app. split; [exact Hcmd |].
      constructor; [apply cmd_ok_turn | constructor].
    + repeat split; auto; try discriminate.
      apply Forall_app. split; [exact Hcmd |].
      constructor; [apply cmd_ok_drive | constructor].
    + repeat split; auto; try discriminate.
      * rewrite map_app, Hann. cbn [map announced_point announcement pose
                                    position v_x v_y fst snd].
        rewrite (announced_rows_next _ p Hp). destruct p; reflexivity.
      * apply Forall_app. split; [exact Hfr |].
        constructor; [| constructor]. cbn. now split.
      * apply Forall_app. split; [exact Hcmd |].
        constructor; [apply cmd_ok_drive | constructor].
    + repeat split; auto.
      * rewrite <- app_assoc. apply Forall_app. split; [exact Hcmd |].
        constructor; [apply cmd_ok_drive |].
        constructor; [apply cmd_ok_zero | constructor].
      * apply Nat.ltb_ge in Hi. lia.
      * exists (cmd_vel s), (0.2 * projected_error_of s).
        rewrite <- app_assoc. reflexivity.
    + destruct Hst; contradiction.
  - rewrite (dispatch_pose m s Hx), pose_callback_eq.
    eexists. split; [reflexivity |]. unfold run_inv.
    cbn [waypt_index target_point state pose_target cmd_vel destroyed
         with_current_point with_current_angle].
    rewrite Hx. repeat split; auto; discriminate.
Qed.

Lemma run_inv_main (es : list event) :
  exists s, main es = Ok tt s /\ run_inv s.
Proof.
  rewrite main_eq.
  apply (spin_invariant run_inv run_inv_step es constructed).
  apply run_inv_constructed.
Qed.

End Invariants.

(** ** Properties of whole runs *)

Section RunProperties.

Context {ext : Externals}.

(** X1.  Along every run the mode string is "turning" or "driving": the
    branch of [move] for any other value is never taken, and the target
    point is always the row of [waypoints] at the waypoint index. *)
Theorem mode_and_target_follow_cursor (es : list event) :
  exists s, main es = Ok tt s
    /\ (state s = "turning"%string \/ state s = "driving"%string)
    /\ nth_error waypoints (waypt_index s) = Some (target_point s).
Proof.
  destruct (run_inv_main es) as (s & Hs & _ & Hrow & Hst & _).
  exists s. auto.
Qed.

(** X2.  Along every run the announcements published on [/pose_target]
    carry, in order, the positions of the waypoints 1 .. [waypt_index]
    (row 0 is never announced), each in frame "map" at height 0. *)
Theorem announcements_are_rows_in_order (es : list event) :
  exists s, main es = Ok tt s
    /\ map announced_point (pose_target s)
       = firstn (waypt_index s) (tl waypoints)
    /\ Forall (fun m => frame_id m = "map"%string
                        /\ v_z (position (pose m)) = 0) (pose_target s).
Proof.
  destruct (run_inv_main es) as (s & Hs & _ & _ & _ & Hann & Hfr & _).
  exists s. auto.
Qed.

(** X3.  Every velocity command of every run either only turns or only
    drives forward: its lateral and vertical linear components and its
    roll and pitch rates are zero, its forward velocity or its yaw rate
    is zero, and its yaw rate is never above 0.3 in magnitude. *)
Theorem commands_turn_or_drive (es : list event) :
  exists s, main es = Ok tt s
    /\ Forall (fun t =>
                 v_y (linear t) = 0 /\ v_z (linear t) = 0
                 /\ v_x (angular t) = 0 /\ v_y (angular t) = 0
                 /\ (v_x (linear t) = 0 \/ v_z (angular t) = 0)
                 /\ (0.3 <? abs (v_z (angular t))) = false)
              (cmd_vel s).
Proof.
  destruct (run_inv_main es) as (s & Hs & _ & _ & _ & _ & _ & Hcmd & _).
  exists s. split; [exact Hs | exact Hcmd].
Qed.

(** X4.  A run destroys the node only at the last waypoint, in the
    driving mode, after the three later waypoints were announced; the
    last two velocity commands are then a drive command and the zero
    command. *)
Theorem destroyed_only_at_last_waypoint (es : list event) :
  exists s, main es = Ok tt s
    /\ (destroyed s = true ->
        waypt_index s = 3%nat
        /\ state s = "driving"%string
        /\ target_point s = (0, 0)
        /\ List.length (pose_target s) = 3%nat
        /\ exists l v, cmd_vel s = l ++ [set_linear_x Twist_0 v; Twist_0]).
Proof.
  destruct (run_inv_main es)
    as (s & Hs & _ & Hrow & _ & Hann & _ & _ & Hend).
  exists s. split; [exact Hs |]. intros Hx.
  destruct (Hend Hx) as (Hi & Hd & Hl). cbn in Hi.
  rewrite Hi in Hrow, Hann. cbn in Hrow. injection Hrow as <-.
  repeat split; auto.
  rewrite <- (length_map announced_point), Hann. reflexivity.
Qed.

(** One callback in one of the two modes: the commands it adds and
    whether it ends the mission. *)
Lemma dispatch_commands (e : event) (s : DrawingNode) :
  state s = "turning"%string \/ state s = "driving"%string ->
  exists s', dispatch e s = Ok tt s'
    /\ (state s' = "turning"%string \/ state s' = "driving"%string)
    /\ (destroyed s = true -> s' = s)
    /\ (destroyed s = false ->
        (destroyed s' = false
         /\ List.length (cmd_vel s')
            = (List.length (cmd_vel s) + (if is_tick e then 1 else 0))%nat
         /\ (progress s' <= progress s + (if is_tick e then 1 else 0))%nat)
        \/ (destroyed s' = true /\ e = Tick
            /\ List.length (cmd_vel s') = (List.length (cmd_vel s) + 2)%nat
            /\ (progress s' <= progress s + 1)%nat)).
Proof.
  intros Hst. destruct (destroyed s) eqn:Hx.
  { exists s. split; [now apply dispatch_destroyed |].
    split; [exact Hst |]. split; [reflexivity | discriminate]. }
  destruct e as [| m].
  - rewrite (dispatch_tick s Hx).
    destruct (move_cases s) as [Ht He | Ht He | Hd He | p Hd He Hn Hp
                                | Hd He Hi | Hnt Hnd];
      [.. | destruct Hst; contradiction];
      eexists; (split; [reflexivity |]);
      (split; [cbn [state published with_state with_cmd_vel with_destroyed];
               auto |]);
      (split; [discriminate |]);
      intros _; unfold progress;
      cbn [waypt_index state cmd_vel destroyed
           published announced resolved with_state with_cmd_vel
           with_pose_target with_target_direction with_target_angle
           with_target_point with_waypt_index with_destroyed is_tick];
      rewrite ?Hx, ?Ht, ?Hd, ?length_app; cbn [List.length String.eqb
        Ascii.eqb Bool.eqb];
      first [left; repeat split; lia | right; repeat split; lia].
  - rewrite (dispatch_pose m s Hx), pose_callback_eq.
    eexists. split; [reflexivity |]. split; [exact Hst |].
    split; [discriminate |].
    intros _. left. unfold progress.
    cbn [waypt_index state cmd_vel destroyed with_current_point
         with_current_angle is_tick].
    rewrite Hx. repeat split; lia.
Qed.

Lemma spin_commands (es : list event) (s : DrawingNode) :
  state s = "turning"%string \/ state s = "driving"%string ->
  exists s', spin es s = Ok tt s'
    /\ (destroyed s = true -> s' = s)
    /\ (destroyed s' = false ->
        List.length (cmd_vel s')
        = (List.length (cmd_vel s) + ticks es)%nat)
    /\ (destroyed s = false ->
        (List.length (cmd_vel s')
         <= List.length (cmd_vel s) + ticks es + 1)%nat)
    /\ (progress s' <= progress s + ticks es)%nat.
Proof.
  revert s. induction es as [| e es IH]; intros s Hst.
  - exists s. cbn. repeat split; auto; lia.
  - destruct (dispatch_commands e s Hst) as (s1 & H1 & Hst1 & Hdead & Hlive).
    destruct (IH s1 Hst1) as (s' & H' & Hdead' & Hcount & Hbound & Hprog).
    exists s'. cbn [spin]. unfold bind. rewrite H1.
    split; [exact H' |].
    assert (Hticks : ticks (e :: es)
                     = ((if is_tick e then 1 else 0) + ticks es)%nat)
      by (unfold ticks; cbn [filter]; destruct (is_tick e); reflexivity).
    rewrite Hticks.
    destruct (destroyed s) eqn:Hx.
    + rewrite (Hdead eq_refl) in *. rewrite (Hdead' Hx) in *.
      repeat split; auto; try congruence; lia.
    + destruct (Hlive eq_refl) as [(Hx1 & Hl1 & Hp1) | (Hx1 & -> & Hl1 & Hp1)].
      * repeat split; try discriminate.
        -- intros Hx'. rewrite (Hcount Hx'). lia.
        -- intros _. specialize (Hbound Hx1). lia.
        -- lia.
      * rewrite (Hdead' Hx1) in *. cbn [is_tick].
        repeat split; try discriminate; try congruence; lia.
Qed.

(** X5.  While the node is alive it has published exactly one velocity
    command per timer tick of the run, and none for a pose estimate; a
    run that ended the mission has published at most one more than it
    had ticks. *)
Theorem one_command_per_tick (es : list event) :
  exists s, main es = Ok tt s
    /\ (destroyed s = false -> List.length (cmd_vel s) = ticks es)
    /\ (List.length (cmd_vel s) <= ticks es + 1)%nat.
Proof.
  destruct (spin_commands es constructed (or_introl eq_refl))
    as (s & Hs & _ & Hcount & Hbound & _).
  exists s. rewrite main_eq. split; [exact Hs |].
  split; [intros Hx; rewrite (Hcount Hx); reflexivity |].
  specialize (Hbound eq_refl). cbn in Hbound. lia.
Qed.

(** X6.  No run ends the mission in fewer than eight timer ticks: each
    of the four waypoints takes at least one tick of turning and one of
    driving, whatever poses are reported. *)
Theorem mission_takes_eight_ticks (es : list event) :
  exists s, main es = Ok tt s
    /\ (2 * waypt_index s
        + (if String.eqb (state s) "driving" then 1 else 0) <= ticks es)%nat
    /\ (destroyed s = true -> (8 <= ticks es)%nat).
Proof.
  destruct (spin_commands es constructed (or_introl eq_refl))
    as (s & Hs & _ & _ & _ & Hprog).
  destruct (run_inv_main es) as (s0 & Hs0 & _ & _ & _ & _ & _ & _ & Hend).
  rewrite main_eq in Hs0. rewrite Hs in Hs0. injection Hs0 as <-.
  exists s. rewrite main_eq. split; [exact Hs |].
  unfold progress in Hprog. cbn [constructed resolved waypt_index state
    destroyed with_target_direction with_target_angle with_target_point
    class_attributes String.eqb Ascii.eqb Bool.eqb] in Hprog.
  split.
  - destruct (destroyed s); lia.
  - intros Hx. destruct (Hend Hx) as (Hi & Hd & _). cbn in Hi.
    rewrite Hx, Hi, Hd in Hprog. cbn in Hprog. lia.
Qed.

End RunProperties.

(** ** NaN and zero in the driving controller *)

Module F64z.

Lemma is_nan_eq (x : float) : is_nan x = true -> x = nan.
Proof.
  intros H. apply Prim2SF_inj. apply F64.is_nan_spec in H. rewrite H.
  reflexivity.
Qed.

Lemma mul_nan_r (x : float) : x * nan = nan.
Proof.
  apply Prim2SF_inj. rewrite mul_spec. change (Prim2SF nan) with S754_nan.
  destruct (Prim2SF x) as [[]|[]| |[] m e]; reflexivity.
Qed.

Lemma add_nan_l (x : float) : nan + x = nan.
Proof.
  apply Prim2SF_inj. rewrite add_spec. change (Prim2SF nan) with S754_nan.
  destruct (Prim2SF x) as [[]|[]| |[] m e]; reflexivity.
Qed.

Lemma add_nan_r (x : float) : x + nan = nan.
Proof.
  apply Prim2SF_inj. rewrite add_spec. change (Prim2SF nan) with S754_nan.
  destruct (Prim2SF x) as [[]|[]| |[] m e]; reflexivity.
Qed.

Lemma is_finite_spec (x : float) :
  is_finite x = true ->
  (exists b, Prim2SF x = S754_zero b)
  \/ (exists b m e, Prim2SF x = S754_finite b m e).
Proof.
  unfold is_finite, is_infinity, is_nan.
  rewrite !FloatAxioms.eqb_spec, abs_spec.
  change (Prim2SF infinity) with (S754_infinity false).
  destruct (Prim2SF x) as [b|b| |b m e]; cbn; eauto; try discriminate.
  destruct b; discriminate.
Qed.

(** A finite number times zero is a zero of either sign. *)
Lemma mul_zero_r (x : float) :
  is_finite x = true -> x * 0 = 0 \/ x * 0 = neg_zero.
Proof.
  intros H.
  assert (Hs : exists b, Prim2SF (x * 0) = S754_zero b).
  { rewrite mul_spec. change (Prim2SF 0) with (S754_zero false).
    destruct (is_finite_spec x H) as [[b ->] | (b & m & e & ->)]; cbn; eauto. }
  destruct Hs as [b Hs]. rewrite <- (SF2Prim_Prim2SF (x * 0)), Hs.
  destruct b; auto.
Qed.

(** Adding a zero changes at most the sign of a zero. *)
Lemma abs_zero_add (z0 z : float) :
  z0 = 0 \/ z0 = neg_zero -> abs (z0 + z) = abs z.
Proof.
  intros H. apply Prim2SF_inj. rewrite !abs_spec, add_spec.
  assert (Hs : exists b, Prim2SF z0 = S754_zero b)
    by (destruct H as [-> | ->]; eexists; reflexivity).
  destruct Hs as [b ->].
  destruct (Prim2SF z) as [[]|[]| |[] m e], b; reflexivity.
Qed.

End F64z.

Section Edges.

Context {ext : Externals}.

(** With a NaN in the stored direction the along-track error is NaN. *)
Lemma projected_error_nan (s : DrawingNode) :
  is_nan (fst (target_direction s)) || is_nan (snd (target_direction s))
  = true ->
  projected_error_of s = nan.
Proof.
  intros H. unfold projected_error_of, vdot.
  apply orb_true_iff in H. destruct H as [H | H];
    apply F64z.is_nan_eq in H; rewrite H.
  - rewrite F64z.mul_nan_r. apply F64z.add_nan_l.
  - rewrite F64z.mul_nan_r. apply F64z.add_nan_r.
Qed.

(** X7.  Once the stored direction has a NaN component (the outcome of
    resolving a target the robot stands on) and the node is driving, no
    sequence of ticks and pose estimates gets it out: the mode stays
    "driving", the waypoint index and the direction stay as they are,
    the node is never destroyed, and every tick publishes a command
    whose forward velocity is NaN. *)
Theorem nan_direction_stalls_driving (s : DrawingNode) (es : list event) :
  state s = "driving"%string ->
  destroyed s = false ->
  is_nan (fst (target_direction s)) || is_nan (snd (target_direction s))
  = true ->
  exists s', spin es s = Ok tt s'
    /\ state s' = "driving"%string
    /\ waypt_index s' = waypt_index s
    /\ target_direction s' = target_direction s
    /\ destroyed s' = false
    /\ cmd_vel s' = cmd_vel s ++ repeat (set_linear_x Twist_0 nan) (ticks es).
Proof.
  revert s. induction es as [| e es IH]; intros s Hd Hx Hn.
  - exists s. cbn. rewrite app_nil_r. repeat split; auto.
  - assert (Hstep : exists s1, dispatch e s = Ok tt s1
              /\ state s1 = "driving"%string
              /\ waypt_index s1 = waypt_index s
              /\ target_direction s1 = target_direction s
              /\ destroyed s1 = false
              /\ cmd_vel s1
                 = cmd_vel s
                   ++ repeat (set_linear_x Twist_0 nan)
                        (if is_tick e then 1 else 0)).
    { destruct e as [| m].
      - rewrite (dispatch_tick s Hx).
        assert (He : (abs (projected_error_of s) <? 0.03) = false)
          by (rewrite (projected_error_nan s Hn); reflexivity).
        rewrite (move_driving_on s Hd He). eexists. split; [reflexivity |].
        unfold drive_cmd. rewrite (projected_error_nan s Hn).
        repeat split; auto.
      - rewrite (dispatch_pose m s Hx), pose_callback_eq.
        eexists. split; [reflexivity |]. cbn. rewrite app_nil_r.
        repeat split; auto. }
    destruct Hstep as (s1 & H1 & Hd1 & Hi1 & Ht1 & Hx1 & Hc1).
    destruct (IH s1 Hd1 Hx1) as (s' & H' & Hd' & Hi' & Ht' & Hx' & Hc');
      [now rewrite Ht1 |].
    exists s'. cbn [spin]. unfold bind. rewrite H1.
    split; [exact H' |]. repeat split; try congruence.
    rewrite Hc', Hc1, <- app_assoc, <- repeat_app. f_equal.
    unfold ticks. cbn [filter]. destruct (is_tick e); reflexivity.
Qed.

(** X8.  On a leg whose stored direction has x component 0 (the first
    leg always has: [__init__] resolves it from the default position
    (0, 0)), the convergence test of the driving phase does not see the
    x coordinate: for any finite x error the magnitude of the
    along-track error is that of the y error times the y component of
    the direction. *)
Theorem cross_track_unseen (s : DrawingNode) :
  fst (target_direction s) = 0 ->
  is_finite (fst (target_point s) - fst (current_point s)) = true ->
  abs (projected_error_of s)
  = abs ((snd (target_point s) - snd (current_point s))
         * snd (target_direction s)).
Proof.
  intros Hd Hf. unfold projected_error_of, vdot, vsub. cbn [fst snd].
  rewrite Hd. apply F64z.abs_zero_add. now apply F64z.mul_zero_r.
Qed.

(** X9.  [pose_callback] overwrites the stored position and heading
    with those of the message and touches nothing else; of two
    estimates in a row only the second is kept. *)
Theorem pose_callback_last_write_wins (m1 m2 : PoseStamped) (s : DrawingNode) :
  (pose_callback m1 ;; pose_callback m2) s = pose_callback m2 s
  /\ exists s', pose_callback m1 s = Ok tt s'
       /\ current_point s'
          = (v_x (position (pose m1)), v_y (position (pose m1)))
       /\ current_angle s'
          = snd (euler_from_quaternion
                   (q_x (orientation (pose m1))) (q_y (orientation (pose m1)))
                   (q_z (orientation (pose m1))) (q_w (orientation (pose m1))))
       /\ target_point s' = target_point s
       /\ target_angle s' = target_angle s
       /\ target_direction s' = target_direction s
       /\ waypt_index s' = waypt_index s
       /\ state s' = state s
       /\ cmd_vel s' = cmd_vel s
       /\ pose_target s' = pose_target s
       /\ destroyed s' = destroyed s.
Proof.
  split.
  - unfold bind. rewrite !pose_callback_eq. reflexivity.
  - rewrite pose_callback_eq. eexists. split; [reflexivity |].
    repeat split; reflexivity.
Qed.

(** X10.  A callback changes the mode only on a timer tick, and only in
    two ways: from "turning" to "driving" with the waypoint index and
    the target kept, when the heading error is below 0.03; or from
    "driving" to "turning" with the index advanced by one, when the
    along-track error is below 0.03. *)
Theorem mode_changes_with_cursor (e : event) (s s' : DrawingNode) :
  dispatch e s = Ok tt s' ->
  state s' <> state s ->
  e = Tick
  /\ ((state s = "turning"%string /\ state s' = "driving"%string
       /\ (abs (angle_error_of s) <? 0.03) = true
       /\ waypt_index s' = waypt_index s
       /\ target_point s' = target_point s
       /\ target_direction s' = target_direction s)
      \/ (state s = "driving"%string /\ state s' = "turning"%string
          /\ (abs (projected_error_of s) <? 0.03) = true
          /\ waypt_index s' = (waypt_index s + 1)%nat
          /\ nth_error waypoints (waypt_index s') = Some (target_point s'))).
Proof.
  intros Hd Hne. destruct (destroyed s) eqn:Hx.
  { rewrite (dispatch_destroyed e s Hx) in Hd. injection Hd as <-.
    contradiction. }
  destruct e as [| m].
  - split; [reflexivity |]. rewrite (dispatch_tick s Hx) in Hd.
    destruct (move_cases s) as [Ht He | Ht He | Hdr He | p Hdr He Hn Hp
                                | Hdr He Hi | Hnt Hnd];
      injection Hd as <-;
      cbn [state published with_state with_cmd_vel with_destroyed] in Hne;
      try contradiction.
    + left. repeat split; auto.
    + right. repeat split; auto.
  - rewrite (dispatch_pose m s Hx), pose_callback_eq in Hd.
    injection Hd as <-. cbn in Hne. contradiction.
Qed.


End Edges.

Lemma nan_direction_stalls_driving_witness :
  let s := run [PoseEstimate (pose_at 0.3 0.3 pi_2); Tick; Tick;
                PoseEstimate (pose_at 0.3 0.3 0); Tick] in
  let es := [Tick; PoseEstimate (pose_at 0 0 0); Tick] in
  state s = "driving"%string
  /\ target_direction s = (nan, nan)
  /\ exists s', @spin reference es s = Ok tt s'
       /\ state s' = "driving"%string
       /\ waypt_index s' = waypt_index s
       /\ target_direction s' = target_direction s
       /\ destroyed s' = false
       /\ cmd_vel s'
          = cmd_vel s ++ repeat (set_linear_x Twist_0 nan) (ticks es).
Proof.
  intros s es. split; [vm_compute; reflexivity |].
  split; [vm_compute; reflexivity |].
  apply (@nan_direction_stalls_driving reference s es);
    vm_compute; reflexivity.
Defined.

Lemma cross_track_unseen_witness :
  let s := with_current_point (0.3, 0.3) (@constructed reference) in
  fst (target_direction s) = 0
  /\ is_finite (fst (target_point s) - fst (current_point s)) = true
  /\ abs (projected_error_of s)
     = abs ((snd (target_point s) - snd (current_point s))
            * snd (target_direction s)).
Proof.
  intros s. split; [reflexivity |]. split; [reflexivity |].
  apply (cross_track_unseen s); reflexivity.
Defined.

Lemma mode_changes_with_cursor_witness :
  let s := with_target_angle 0.02 class_attributes in
  let s' := with_state "driving" (published (turn_cmd s) s) in
  @dispatch reference Tick s = Ok tt s'
  /\ state s' <> state s
  /\ state s = "turning"%string /\ state s' = "driving"%string
  /\ waypt_index s' = waypt_index s.
Proof.
  intros s s'.
  assert (Hd : @dispatch reference Tick s = Ok tt s') by reflexivity.
  assert (Hne : state s' <> state s) by discriminate.
  split; [exact Hd |]. split; [exact Hne |].
  destruct (@mode_changes_with_cursor reference Tick s s' Hd Hne)
    as [_ [(Ht & Hdr & _ & Hi & _) | (Hdr & _)]].
  - repeat split; assumption.
  - discriminate Hdr.
Defined.

Section FirstLeg.

Context {ext : Externals}.

(** X12.  The first leg is fixed at construction, from the default
    position (0, 0), before any pose estimate has arrived: whatever poses
    a run reports, as long as the waypoint index is 0 the target is
    (0, 0.3), the direction (0, 1) and the heading [arctan2 0.3 0]. *)
Theorem first_leg_fixed_at_construction (es : list event) :
  exists s, main es = Ok tt s
    /\ (waypt_index s = 0%nat ->
        target_point s = (0, 0.3)
        /\ target_direction s = (0, 1)
        /\ target_angle s = arctan2 0.3 0).
Proof.
  rewrite main_eq.
  apply (spin_invariant
           (fun s => waypt_index s = 0%nat ->
                     target_point s = (0, 0.3)
                     /\ target_direction s = (0, 1)
                     /\ target_angle s = arctan2 0.3 0)).
  - intros e s Hs. destruct (dispatch_advance e s) as (s' & Hd & Hadv).
    exists s'. split; [exact Hd |]. intros H0.
    destruct Hadv as [[Hi _] | [Hi _]]; [| lia].
    destruct (leg_frame e s s' Hd Hi) as (Hp & Hdir & Ha).
    rewrite Hp, Hdir, Ha. apply Hs. congruence.
  - intros _. repeat split; reflexivity.
Qed.

End FirstLeg.
